(** * goadb: the Adb host-service client (adb.go)

    A shallow embedding of the client operations of [adb.go] and the
    properties its specification states about them.

    Conventions of the embedding:
    - a Go [string] and a Go [[]byte] are both byte sequences; both are a
      Rocq [string] (a list of 8-bit [ascii]), so [string(resp)] and
      [[]byte(req)] are the identity;
    - a Go [int] is a [Z]; the 64-bit unsigned arithmetic inside
      [strconv.ParseUint] has its wrap-around written out;
    - a Go result [(v, err)] is a pair whose second component is an
      [option]: [None] is [nil];  a Go slice that may be [nil] is an
      [option (list _)];
    - the network is an explicit world threaded through every operation,
      together with the trace of the calls made on it. *)

From Stdlib Require Import ZArith List String Ascii Lia Bool DecimalString.
From Stdlib Require DecimalZ.
From stdpp Require Import base option list strings gmap.

Local Open Scope string_scope.
Local Open Scope Z_scope.

(** ** Errors *)

(** Modelled from the spec: the failure kinds of section 7 (package
    [internal/errors] is not among the sources). *)
Inductive ErrCode :=
| ConnectionRefused
| ServerUnavailable
| ProtocolError
| AdbError
| ParseError
| IOError
| Timeout.

#[global] Instance ErrCode_eq_dec : EqDecision ErrCode.
Proof. solve_decision. Defined.

(** [strconv.NumError]: the function, the input and the reason. *)
Inductive NumReason := ErrSyntax | ErrRange | ErrBase | ErrBitSize.

Record NumError := mkNumError {
  Func : string;
  Num : string;
  Reason : NumReason
}.

(** Modelled from the spec: the structured error of sections 7 and 9, which
    carries the failure kind, a message, the name of the operation that
    reported it (when annotated) and the underlying cause. *)
Inductive Err :=
| mkErr (code : ErrCode) (message : string) (operation : option string)
        (cause : Cause)
with Cause :=
| NoCause
| CausedByNum (e : NumError)
| CausedBy (e : Err).

Definition Code (e : Err) : ErrCode := let 'mkErr c _ _ _ := e in c.
Definition Message (e : Err) : string := let 'mkErr _ m _ _ := e in m.
Definition Operation (e : Err) : option string := let 'mkErr _ _ o _ := e in o.
Definition ErrCause (e : Err) : Cause := let 'mkErr _ _ _ c := e in c.

(** Modelled from the spec: [errors.WrapErrorf(cause, code, format, args)]
    builds an error of kind [code] around a foreign cause; the formatted
    message is passed already rendered. *)
Definition WrapErrorf (cause : NumError) (code : ErrCode) (msg : string) : Err :=
  mkErr code msg None (CausedByNum cause).

(** Modelled from the spec: [wrapClientError(err, client, operation)]
    annotates [err] with the operation's name; the kind and the message of
    the underlying error (for [AdbError], the server's own text) stay
    visible and the underlying error becomes the cause. *)
Definition wrapClientError (err : Err) (operation : string) : Err :=
  mkErr (Code err) (Message err) (Some operation) (CausedBy err).

(** ** strconv.ParseInt *)

(** [parseServerVersion] calls [strconv.ParseInt] of Go's standard
    library, which is embedded here from its definition (package strconv,
    file atoi.go), on a 64-bit platform ([IntSize] is 64). A byte is its
    code, a [uint64] is a [Z] reduced modulo 2^64 where the source can
    wrap around. *)
Module strconv.

Definition fnParseUint : string := "ParseUint".
Definition fnParseInt : string := "ParseInt".
Definition IntSize : Z := 64.
Definition maxUint64 : Z := 2 ^ 64 - 1.

Definition syntaxError (fn str : string) : NumError := mkNumError fn str ErrSyntax.
Definition rangeError (fn str : string) : NumError := mkNumError fn str ErrRange.
Definition baseError (fn str : string) : NumError := mkNumError fn str ErrBase.
Definition bitSizeError (fn str : string) : NumError := mkNumError fn str ErrBitSize.

Definition byte_code (c : ascii) : Z := Z.of_N (N_of_ascii c).

(** [lower(c) = c | ('x' - 'X')]. *)
Definition lower (c : Z) : Z := Z.lor c 32.

(** The digit switch of the loop of [ParseUint], after its case for the
    underscore; [None] is its [default:] branch. *)
Definition digit (c : ascii) : option Z :=
  let c := byte_code c in
  if (48 <=? c) && (c <=? 57) then Some (c - 48)
  else if (97 <=? lower c) && (lower c <=? 122) then Some (lower c - 97 + 10)
  else None.

(** What [underscoreOK] saw last: the beginning of the number, a digit or
    a base prefix, an underscore, or none of these. *)
Inductive Saw := SawStart | SawDigit | SawUnderscore | SawOther.

(** The loop of [underscoreOK] over the number proper. *)
Fixpoint underscoreOK_loop (hex : bool) (saw : Saw) (s : string) : bool :=
  match s with
  | EmptyString => match saw with SawUnderscore => false | _ => true end
  | String c s' =>
      let b := byte_code c in
      if ((48 <=? b) && (b <=? 57))
         || (hex && (97 <=? lower b) && (lower b <=? 102))
      then underscoreOK_loop hex SawDigit s'
      else if b =? 95
      then match saw with
           | SawDigit => underscoreOK_loop hex SawUnderscore s'
           | _ => false
           end
      else match saw with
           | SawUnderscore => false
           | _ => underscoreOK_loop hex SawOther s'
           end
  end.

(** [underscoreOK]: underscores must separate digits or follow a base
    prefix. *)
Definition underscoreOK (s : string) : bool :=
  let s :=
    match s with
    | String c s' => if Ascii.eqb c "-" || Ascii.eqb c "+" then s' else s
    | EmptyString => s
    end in
  match s with
  | String c0 (String c1 rest) =>
      let l := lower (byte_code c1) in
      if Ascii.eqb c0 "0" && ((l =? 98) || (l =? 111) || (l =? 120))
      then underscoreOK_loop (l =? 120) SawDigit rest
      else underscoreOK_loop false SawStart s
  | _ => underscoreOK_loop false SawStart s
  end.

(** The loop of [ParseUint] over the bytes of [s], with [n] the
    accumulator (a [uint64]), followed by the check of the underscores
    that ends the function. *)
Fixpoint ParseUint_loop (base0 : bool) (base cutoff maxVal : Z) (s0 : string)
           (s : string) (underscores : bool) (n : Z) : Z * option NumError :=
  match s with
  | EmptyString =>
      if underscores && negb (underscoreOK s0)
      then (0, Some (syntaxError fnParseUint s0))
      else (n, None)
  | String c s' =>
      if (byte_code c =? 95) && base0
      then ParseUint_loop base0 base cutoff maxVal s0 s' true n
      else
        match digit c with
        | None => (0, Some (syntaxError fnParseUint s0))
        | Some d =>
            if d >=? base then (0, Some (syntaxError fnParseUint s0))
            else if n >=? cutoff then (maxVal, Some (rangeError fnParseUint s0))
            else
              let n := (n * base) mod 2 ^ 64 in
              let n1 := (n + d) mod 2 ^ 64 in
              if (n1 <? n) || (n1 >? maxVal)
              then (maxVal, Some (rangeError fnParseUint s0))
              else ParseUint_loop base0 base cutoff maxVal s0 s' underscores n1
        end
  end.

(** The prefix of a number given with base 0: the base it announces and
    the digits that follow. *)
Definition base_prefix (s : string) : Z * string :=
  match s with
  | String c0 rest =>
      if Ascii.eqb c0 "0"
      then match rest with
           | String c1 (String c2 rest') =>
               let l := lower (byte_code c1) in
               if l =? 98 then (2, String c2 rest')
               else if l =? 111 then (8, String c2 rest')
               else if l =? 120 then (16, String c2 rest')
               else (8, rest)
           | _ => (8, rest)
           end
      else (10, s)
  | EmptyString => (10, s)
  end.

(** [ParseUint]. The cutoff, which the source gives as a switch on the
    base with the same quotient in each case, is the smallest number
    whose product with the base exceeds [maxUint64]. *)
Definition ParseUint (s : string) (base bitSize : Z) : Z * option NumError :=
  if String.eqb s "" then (0, Some (syntaxError fnParseUint s))
  else
    let base0 := base =? 0 in
    let s0 := s in
    let based :=
      if (2 <=? base) && (base <=? 36) then Some (base, s)
      else if base =? 0 then Some (base_prefix s)
      else None in
    match based with
    | None => (0, Some (baseError fnParseUint s0))
    | Some (base, s) =>
        if (bitSize <? 0) || (bitSize >? 64)
        then (0, Some (bitSizeError fnParseUint s0))
        else
          let bitSize := if bitSize =? 0 then IntSize else bitSize in
          let cutoff := maxUint64 / base + 1 in
          let maxVal := (Z.shiftl 1 bitSize mod 2 ^ 64 - 1) mod 2 ^ 64 in
          ParseUint_loop base0 base cutoff maxVal s0 s false 0
    end.

(** Conversion of a [uint64] or of an [int64] result to [int64]. *)
Definition to_int64 (z : Z) : Z := (z + 2 ^ 63) mod 2 ^ 64 - 2 ^ 63.

Definition is_ErrRange (e : NumError) : bool :=
  match Reason e with ErrRange => true | _ => false end.

Definition ParseInt (s : string) (base bitSize : Z) : Z * option NumError :=
  match s with
  | EmptyString => (0, Some (syntaxError fnParseInt s))
  | String c0 rest =>
      let s0 := s in
      (* Pick off leading sign. *)
      let '(neg, s) :=
        if Ascii.eqb c0 "+" then (false, rest)
        else if Ascii.eqb c0 "-" then (true, rest)
        else (false, s) in
      (* Convert unsigned and check range. *)
      let '(un, err) := ParseUint s base bitSize in
      let syntax_failure :=
        match err with
        | Some e => if is_ErrRange e then None
                    else Some (mkNumError fnParseInt s0 (Reason e))
        | None => None
        end in
      match syntax_failure with
      | Some e => (0, Some e)
      | None =>
          let bitSize := if bitSize =? 0 then IntSize else bitSize in
          let cutoff := Z.shiftl 1 (bitSize - 1) mod 2 ^ 64 in
          if negb neg && (un >=? cutoff)
          then (to_int64 (cutoff - 1), Some (rangeError fnParseInt s0))
          else if neg && (un >? cutoff)
          then (to_int64 (- to_int64 cutoff), Some (rangeError fnParseInt s0))
          else
            let n := to_int64 un in
            ((if neg then to_int64 (- n) else n), None)
      end
  end.

End strconv.

(** ** Parsing the server version (adb.go, parseServerVersion) *)

(** [int(version)] changes nothing: without an error the value fits 32
    bits, and an [int] has at least as many. *)
Definition parseServerVersion (versionRaw : string) : Z * option Err :=
  let versionStr := versionRaw in
  let '(version, err) := strconv.ParseInt versionStr 16 32 in
  match err with
  | Some e =>
      (0, Some (WrapErrorf e ParseError
                  ("error parsing server version: " +:+ versionStr)))
  | None => (version, None)
  end.

(** ** The wire: connections to the adb server *)

(** A [*wire.Conn], identified by a handle. *)
Definition Conn := nat.

(** Modelled from the spec: the contract of the Connection and of the
    Server handle (sections 4.1 and 4.2; packages [wire] and the server are
    not among the sources). What the network answers is left open: the five
    operations are the fields of a record over an arbitrary world [W], and
    every theorem about the client holds for every such record.
    [ReadStatus] and [ReadMessage] answer a Go pair; [Close]'s result is
    never looked at by the client. *)
Record Wire (W : Type) := {
  Dial : W -> (Conn + Err) * W;
  SendMessage : Conn -> string -> W -> option Err * W;
  ReadStatus : Conn -> string -> W -> (string * option Err) * W;
  ReadMessage : Conn -> W -> (string * option Err) * W;
  Close : Conn -> W -> W
}.
Arguments Dial {W}.
Arguments SendMessage {W}.
Arguments ReadStatus {W}.
Arguments ReadMessage {W}.
Arguments Close {W}.

(** The argument of a [fmt.Printf] of the client. *)
Inductive PrintArg :=
| ArgErr (e : Err)
| ArgBytes (s : string).

(** What a client operation does to the outside, in order: the calls on the
    wire with their outcomes, and what it prints. *)
Inductive Event :=
| EvDial (r : Conn + Err)
| EvSendMessage (c : Conn) (msg : string) (r : option Err)
| EvReadStatus (c : Conn) (req : string) (r : string * option Err)
| EvReadMessage (c : Conn) (r : string * option Err)
| EvClose (c : Conn)
| EvPrintf (format : string) (arg : PrintArg).

Record State (W : Type) := mkState {
  world : W;
  trace : list Event
}.
Arguments mkState {W}.
Arguments world {W}.
Arguments trace {W}.

(** ** A state monad for the client *)

Definition M (W A : Type) : Type := State W -> A * State W.

Definition ret {W A} (a : A) : M W A := fun st => (a, st).

Definition bind {W A B} (m : M W A) (k : A -> M W B) : M W B :=
  fun st => let '(a, st') := m st in k a st'.

Declare Scope go_scope.
Delimit Scope go_scope with go.
Notation "x <- m ;; k" := (bind m (fun x => k))
  (at level 100, m at next level, right associativity) : go_scope.
Local Open Scope go_scope.

(** [defer cleanup] at the head of [body]: [cleanup] runs when [body]
    returns, on whatever path, and the result of [body] is returned. *)
Definition defer {W A} (cleanup : M W unit) (body : M W A) : M W A :=
  a <- body ;; _ <- cleanup ;; ret a.

Definition emit {W} (ev : Event) : M W unit :=
  fun st => (tt, mkState (world st) (trace st ++ [ev])).

(** [fmt.Sprintf("%d", n)]. *)
Definition itoa (n : Z) : string := NilZero.string_of_int (Z.to_int n).

(** ** Device records and the device-list parser *)

(** Modelled from the spec: the connection states of a DeviceInfo
    (section 3). *)
Inductive DeviceState :=
| StateDevice
| StateOffline
| StateUnauthorized
| StateUnknown.

#[global] Instance DeviceState_eq_dec : EqDecision DeviceState.
Proof. solve_decision. Defined.

(** Modelled from the spec: DeviceInfo (section 3): the serial, the
    connection state and the extra attributes of the long format. *)
Record DeviceInfo := mkDeviceInfo {
  Serial : string;
  ConnState : DeviceState;
  Attrs : gmap string string
}.

#[global] Instance DeviceInfo_eq_dec : EqDecision DeviceInfo.
Proof. solve_decision. Defined.

Module devicelist.

Definition is_newline (c : ascii) : bool := Ascii.eqb c "010".

(** Space, tab, vertical tab, form feed and carriage return. *)
Definition is_space (c : ascii) : bool :=
  Ascii.eqb c " " || Ascii.eqb c "009" || Ascii.eqb c "011"
  || Ascii.eqb c "012" || Ascii.eqb c "013".

(** The segments of [s] between the bytes that satisfy [sep]. *)
Fixpoint split_on (sep : ascii -> bool) (s : string) : list string :=
  match s with
  | EmptyString => [""]
  | String c s' =>
      if sep c then "" :: split_on sep s'
      else match split_on sep s' with
           | seg :: segs => String c seg :: segs
           | [] => [String c ""]
           end
  end.

Definition is_empty (s : string) : bool := String.eqb s "".

Fixpoint drop_leading_empty (l : list string) : list string :=
  match l with
  | s :: l' => if is_empty s then drop_leading_empty l' else l
  | [] => []
  end.

(** Modelled from the spec: "sequence of lines separated by newline;
    trailing empty lines ignored" (section 4.4). *)
Definition payload_lines (payload : string) : list string :=
  rev (drop_leading_empty (rev (split_on is_newline payload))).

(** Modelled from the spec: "each line is whitespace-delimited fields". *)
Definition fields (line : string) : list string :=
  List.filter (fun f => negb (is_empty f)) (split_on is_space line).

(** Modelled from the spec: the error of a malformed line, a ParseError
    "naming the offending line". *)
Definition malformed (line : string) : Err :=
  mkErr ParseError ("malformed device line: " +:+ line) None NoCause.

(** Modelled from the spec: the short line format, "<serial>\t<state>
    -- only serial is retained"; a line that is not a serial and a state
    is malformed. *)
Definition parseDeviceShort (line : string) : DeviceInfo + Err :=
  match fields line with
  | [serial; _] => inl (mkDeviceInfo serial StateUnknown ∅)
  | _ => inr (malformed line)
  end.

(** The lines parsed in order; the first malformed line fails the whole
    list. *)
Fixpoint parse_lines (lineParseFunc : string -> DeviceInfo + Err)
         (lines : list string) : list DeviceInfo + Err :=
  match lines with
  | [] => inl []
  | line :: rest =>
      match lineParseFunc line with
      | inr e => inr e
      | inl device =>
          match parse_lines lineParseFunc rest with
          | inr e => inr e
          | inl devices => inl (device :: devices)
          end
      end
  end.

(** Modelled from the spec: [parseDeviceList(list, lineParseFunc)]:
    "parsing is line-independent; a malformed line fails the whole call
    with ParseError ... rather than skipping it" (section 4.4). *)
Definition parseDeviceList (payload : string)
           (lineParseFunc : string -> DeviceInfo + Err) : list DeviceInfo + Err :=
  parse_lines lineParseFunc (payload_lines payload).

End devicelist.
Import devicelist.

(** ** The client (adb.go) *)

Section Client.

Context {W : Type} (wire : Wire W).

Local Abbreviation M := (M W).

(** The calls on the wire, each recorded with its outcome. *)

(** [c.server.Dial()]; [c.Dial()] is the same call. *)
Definition server_Dial : M (Conn + Err) :=
  fun st =>
    let '(r, w) := Dial wire (world st) in
    (r, mkState w (trace st ++ [EvDial r])).

Definition conn_SendMessage (conn : Conn) (msg : string) : M (option Err) :=
  fun st =>
    let '(r, w) := SendMessage wire conn msg (world st) in
    (r, mkState w (trace st ++ [EvSendMessage conn msg r])).

Definition conn_ReadStatus (conn : Conn) (req : string) : M (string * option Err) :=
  fun st =>
    let '(r, w) := ReadStatus wire conn req (world st) in
    (r, mkState w (trace st ++ [EvReadStatus conn req r])).

Definition conn_ReadMessage (conn : Conn) : M (string * option Err) :=
  fun st =>
    let '(r, w) := ReadMessage wire conn (world st) in
    (r, mkState w (trace st ++ [EvReadMessage conn r])).

Definition conn_Close (conn : Conn) : M unit :=
  fun st =>
    (tt, mkState (Close wire conn (world st)) (trace st ++ [EvClose conn])).

Definition Printf (format : string) (arg : PrintArg) : M unit :=
  emit (EvPrintf format arg).

(** Modelled from the spec: [wire.SendMessageString(conn, text)],
    "convenience equal to SendMessage(utf8 bytes of text)"
    (section 4.1). *)
Definition SendMessageString (conn : Conn) (msg : string) : M (option Err) :=
  conn_SendMessage conn msg.

(** Modelled from the spec: [roundTripSingleResponse(server, command)]
    (section 4.3): dial, with the connection closed on return; send the
    command; read the status; read the one message. A failure is
    returned as it is. *)
Definition roundTripSingleResponse (command : string) : M (string * option Err) :=
  r <- server_Dial ;;
  match r with
  | inr err => ret ("", Some err)
  | inl conn =>
      defer (conn_Close conn)
        (err <- SendMessageString conn command ;;
         match err with
         | Some err => ret ("", Some err)
         | None =>
             status <- conn_ReadStatus conn command ;;
             match snd status with
             | Some err => ret ("", Some err)
             | None => conn_ReadMessage conn
             end
         end)
  end.

(** ServerVersion asks the ADB server for its internal version number. *)
Definition ServerVersion : M (Z * option Err) :=
  r <- roundTripSingleResponse "host:version" ;;
  let '(resp, err) := r in
  match err with
  | Some err => ret (0, Some (wrapClientError err "GetServerVersion"))
  | None =>
      let '(version, err) := parseServerVersion resp in
      match err with
      | Some err => ret (0, Some (wrapClientError err "GetServerVersion"))
      | None => ret (version, None)
      end
  end.

(** KillServer tells the server to quit immediately. *)
Definition KillServer : M (option Err) :=
  r <- server_Dial ;;
  match r with
  | inr err => ret (Some (wrapClientError err "KillServer"))
  | inl conn =>
      defer (conn_Close conn)
        (err <- SendMessageString conn "host:kill" ;;
         match err with
         | Some err => ret (Some (wrapClientError err "KillServer"))
         | None => ret None
         end)
  end.

(** The loop [for i, dev := range devices { serials[i] = dev.Serial }],
    from index [i] on. [serials] is as long as [devices], so no index is
    out of range (where Go would panic and the list update does
    nothing). *)
Fixpoint assign_serials (devices : list DeviceInfo) (i : nat)
         (serials : list string) : list string :=
  match devices with
  | [] => serials
  | dev :: rest => assign_serials rest (S i) (<[i := Serial dev]> serials)
  end.

(** ListDeviceSerials returns the serial numbers of all attached
    devices. *)
Definition ListDeviceSerials : M (option (list string) * option Err) :=
  r <- roundTripSingleResponse "host:devices" ;;
  let '(resp, err) := r in
  match err with
  | Some err => ret (None, Some (wrapClientError err "ListDeviceSerials"))
  | None =>
      match parseDeviceList resp parseDeviceShort with
      | inr err => ret (None, Some (wrapClientError err "ListDeviceSerials"))
      | inl devices =>
          let serials := replicate (length devices) "" in
          let serials := assign_serials devices 0 serials in
          ret (Some serials, None)
      end
  end.

(** ListDevices returns the list of connected devices. The parser of the
    long line format is not among the sources and is a parameter. *)
Definition ListDevices (parseDeviceLong : string -> DeviceInfo + Err)
  : M (option (list DeviceInfo) * option Err) :=
  r <- roundTripSingleResponse "host:devices-l" ;;
  let '(resp, err) := r in
  match err with
  | Some err => ret (None, Some (wrapClientError err "ListDevices"))
  | None =>
      match parseDeviceList resp parseDeviceLong with
      | inr err => ret (None, Some (wrapClientError err "ListDevices"))
      | inl devices => ret (Some devices, None)
      end
  end.

Definition ListForwards : M (option (list DeviceInfo) * option Err) :=
  r <- roundTripSingleResponse "host:list-forward" ;;
  let '(resp, err) := r in
  match err with
  | Some err => ret (None, Some (wrapClientError err "ListForwards"))
  | None =>
      _ <- Printf ("forward resp: %s" +:+ String "010" "") (ArgBytes resp) ;;
      ret (None, None)
  end.

(** Connect connect to a device via TCP/IP. *)
Definition Connect (host : string) (port : Z) : M (option Err) :=
  r <- roundTripSingleResponse
         ("host:connect:" +:+ host +:+ ":" +:+ itoa port) ;;
  let '(_, err) := r in
  match err with
  | Some err => ret (Some (wrapClientError err "Connect"))
  | None => ret None
  end.

Definition RestartAdbdTcpip (serial : string) (devicePort : Z) : M (option Err) :=
  r <- server_Dial ;;
  match r with
  | inr err => ret (Some err)
  | inl conn =>
      defer (conn_Close conn)
        (let req1 := "host:tport:serial:" +:+ serial in
         err <- conn_SendMessage conn req1 ;;
         match err with
         | Some err =>
             _ <- Printf ("restartadbd error1: %v" +:+ String "010" "") (ArgErr err) ;;
             ret (Some err)
         | None =>
             status <- conn_ReadStatus conn req1 ;;
             match snd status with
             | Some err =>
                 _ <- Printf ("restartadbd error2: %v" +:+ String "010" "") (ArgErr err) ;;
                 ret (Some err)
             | None =>
                 let req2 := "tcpip:" +:+ itoa devicePort in
                 err <- conn_SendMessage conn req2 ;;
                 match err with
                 | Some err =>
                     _ <- Printf ("restartadbd error4: %v" +:+ String "010" "") (ArgErr err) ;;
                     ret (Some err)
                 | None =>
                     status <- conn_ReadStatus conn req2 ;;
                     match snd status with
                     | Some err =>
                         _ <- Printf ("restartadbd error5: %v" +:+ String "010" "") (ArgErr err) ;;
                         ret (Some err)
                     | None => ret None
                     end
                 end
             end
         end)
  end.

Definition ForwardDevice (serial : string) (localPort devicePort : Z) : M (option Err) :=
  r <- server_Dial ;;
  match r with
  | inr err => ret (Some err)
  | inl conn =>
      defer (conn_Close conn)
        (let req1 := "host:tport:serial:" +:+ serial in
         err <- conn_SendMessage conn req1 ;;
         match err with
         | Some err =>
             _ <- Printf ("fwd error1: %v" +:+ String "010" "") (ArgErr err) ;;
             ret (Some err)
         | None =>
             status <- conn_ReadStatus conn req1 ;;
             match snd status with
             | Some err =>
                 _ <- Printf ("fwd error2: %v" +:+ String "010" "") (ArgErr err) ;;
                 ret (Some err)
             | None =>
                 let req2 := "host:forward:tcp:" +:+ itoa localPort
                             +:+ ";tcp:" +:+ itoa devicePort in
                 err <- conn_SendMessage conn req2 ;;
                 match err with
                 | Some err =>
                     _ <- Printf ("fwd error4: %v" +:+ String "010" "") (ArgErr err) ;;
                     ret (Some err)
                 | None =>
                     status <- conn_ReadStatus conn req2 ;;
                     match snd status with
                     | Some err =>
                         _ <- Printf ("fwd error5: %v" +:+ String "010" "") (ArgErr err) ;;
                         ret (Some err)
                     | None => ret None
                     end
                 end
             end
         end)
  end.

End Client.

(** A client operation run from a world on which nothing has happened
    yet. *)
Definition start {W} (w : W) : State W := mkState w [].

(** ** What the specification speaks of *)

(** The value of one hexadecimal digit, in either case. *)
Definition hex_digit_value (c : ascii) : option Z :=
  let n := strconv.byte_code c in
  if (48 <=? n) && (n <=? 57) then Some (n - 48)
  else if (97 <=? n) && (n <=? 102) then Some (n - 87)
  else if (65 <=? n) && (n <=? 70) then Some (n - 55)
  else None.

(** The value of the digits [s] read after a numeral of value [acc]. *)
Fixpoint hex_digits_value (s : string) (acc : Z) : option Z :=
  match s with
  | EmptyString => Some acc
  | String c s' =>
      match hex_digit_value c with
      | Some d => hex_digits_value s' (16 * acc + d)
      | None => None
      end
  end.

(** A hexadecimal numeral is one or more hexadecimal digits; [hex_value]
    is its value, [None] when [s] is not a numeral. *)
Definition hex_value (s : string) : option Z :=
  match s with
  | EmptyString => None
  | _ => hex_digits_value s 0
  end.

(** A hexadecimal numeral with an optional sign in front. *)
Definition signed_hex_value (s : string) : option Z :=
  match s with
  | String c s' =>
      if Ascii.eqb c "+" then hex_value s'
      else if Ascii.eqb c "-" then Z.opp <$> hex_value s'
      else hex_value s
  | EmptyString => None
  end.

Definition in_int32 (v : Z) : bool := (- 2 ^ 31 <=? v) && (v <=? 2 ^ 31 - 1).

(** ** A scripted network, for running the client on examples *)

Module script.

(** What the network answers to the next call. *)
Inductive Reply :=
| Accept (c : Conn)
| Refuse (e : Err)
| Sent
| NotSent (e : Err)
| Status (tag : string) (e : option Err)
| Payload (msg : string) (e : option Err).

Definition World := list Reply.

(** The answer to a call the script has no reply for. *)
Definition unscripted : Err := mkErr IOError "unexpected call" None NoCause.

Definition dial (w : World) : (Conn + Err) * World :=
  match w with
  | Accept c :: w' => (inl c, w')
  | Refuse e :: w' => (inr e, w')
  | _ => (inr unscripted, w)
  end.

Definition send (c : Conn) (msg : string) (w : World) : option Err * World :=
  match w with
  | Sent :: w' => (None, w')
  | NotSent e :: w' => (Some e, w')
  | _ => (Some unscripted, w)
  end.

Definition status (c : Conn) (req : string) (w : World)
  : (string * option Err) * World :=
  match w with
  | Status tag e :: w' => ((tag, e), w')
  | _ => (("", Some unscripted), w)
  end.

Definition message (c : Conn) (w : World) : (string * option Err) * World :=
  match w with
  | Payload msg e :: w' => ((msg, e), w')
  | _ => (("", Some unscripted), w)
  end.

Definition wire : Wire World :=
  {| Dial := dial; SendMessage := send; ReadStatus := status;
     ReadMessage := message; Close := fun _ w => w |}.

(** A server that accepts the connection and answers [OKAY] and the
    payload [msg] to one command. *)
Definition answers (msg : string) : World :=
  [Accept 0%nat; Sent; Status "OKAY" None; Payload msg None].

Definition refused : Err := mkErr ConnectionRefused "connection refused" None NoCause.

(** The error of a [FAIL] status with the server's message [msg]. *)
Definition failed (msg : string) : Err := mkErr AdbError msg None NoCause.

End script.

(** The two constants of [ParseUint] when called with base 16 and bit
    size 32: the largest result and the bound above which another digit
    overflows 64 bits. *)
Definition maxVal32 : Z := 2 ^ 32 - 1.
Definition cutoff16 : Z := strconv.maxUint64 / 16 + 1.

(** ** Reading a trace *)

Definition is_status_read (ev : Event) : bool :=
  match ev with EvReadStatus _ _ _ => true | _ => false end.

Definition is_message_read (ev : Event) : bool :=
  match ev with EvReadMessage _ _ => true | _ => false end.

Definition is_wire_call (ev : Event) : bool :=
  match ev with EvPrintf _ _ => false | _ => true end.

(** How many status tags, and how many messages, were read. *)
Definition status_reads (t : list Event) : nat :=
  length (List.filter is_status_read t).

Definition message_reads (t : list Event) : nat :=
  length (List.filter is_message_read t).

(** The calls on the wire, without what was printed in between. *)
Definition wire_calls (t : list Event) : list Event :=
  List.filter is_wire_call t.



(** ** The specification's sentences that the code does not follow *)

(** "After KillServer sends the command, the client reads exactly one
    status tag before returning and reads no further payload; it returns
    success only if that status is OKAY", at the world [w]. *)
Definition KillServer_reads_one_status {W} (wire : Wire W) (w : W) : Prop :=
  let '(r, st) := KillServer wire (start w) in
  forall c, In (EvSendMessage c "host:kill" None) (trace st) ->
    status_reads (trace st) = 1%nat
    /\ message_reads (trace st) = 0%nat
    /\ (r = None ->
        exists tag, In (EvReadStatus c "host:kill" (tag, None)) (trace st)).

(** "For every payload that is a valid hex numeral ServerVersion returns
    that integer, and for every payload that is not it returns 0 and a
    ParseError", at the payload [payload]. *)
Definition ServerVersion_parses_every_hex (payload : string) : Prop :=
  forall W (wire : Wire W) (w : W) (st1 : State W),
    roundTripSingleResponse wire "host:version" (start w)
    = ((payload, None), st1) ->
    match hex_value payload with
    | Some v => ServerVersion wire (start w) = ((v, None), st1)
    | None =>
        exists e, ServerVersion wire (start w) = ((0, Some e), st1)
                  /\ Code e = ParseError
    end.

(** ** The device watcher *)

Module watcher.

(** Modelled from the spec: a snapshot is "the watcher's most recently
    observed full device set", keyed by serial (section 3, glossary;
    the watcher's file is not among the sources). *)
Abbreviation Snapshot := (gmap string DeviceInfo).

(** Modelled from the spec: ChangeEvent, "{added: set of DeviceInfo,
    removed: set of DeviceInfo}", each set keyed by serial like the
    snapshots. *)
Record ChangeEvent := mkChangeEvent {
  added : gmap string DeviceInfo;
  removed : gmap string DeviceInfo
}.

(** The records of [m] that [other] does not hold under the same
    serial. *)
Definition only_in (m other : gmap string DeviceInfo) : gmap string DeviceInfo :=
  filter (fun kd => other !! kd.1 <> Some kd.2) m.

(** Modelled from the spec: "compute the symmetric difference against
    the previous snapshot, keyed by serial: devices present now but
    absent before -> added; present before but absent now -> removed;
    present in both but with a changed connection state -> reported as
    removed-then-added" (section 4.5, step 2). For a serial of both
    snapshots whose record changed, the record of before is removed and
    the record of now is added. *)
Definition diff (before now : Snapshot) : ChangeEvent :=
  {| added := only_in now before; removed := only_in before now |}.

Definition no_change (ev : ChangeEvent) : bool :=
  bool_decide (added ev = ∅) && bool_decide (removed ev = ∅).

(** Modelled from the spec: one poll cycle (section 4.5, steps 1 to 4).
    [baseline] is the previous snapshot, [None] until the first
    successful poll; [polled] is what the long listing returned. The
    result is the next baseline, the event emitted if any, and the
    error reported if any. A failed poll is reported and changes
    nothing; the first successful poll seeds the baseline without an
    event; afterwards a cycle emits one event when it had any
    difference and nothing otherwise. *)
Definition poll_cycle (baseline : option Snapshot) (polled : Snapshot + Err)
  : option Snapshot * option ChangeEvent * option Err :=
  match polled with
  | inr err => (baseline, None, Some err)
  | inl now =>
      match baseline with
      | None => (Some now, None, None)
      | Some before =>
          let ev := diff before now in
          (Some now, (if no_change ev then None else Some ev), None)
      end
  end.

Definition emitted (r : option Snapshot * option ChangeEvent * option Err)
  : option ChangeEvent := r.1.2.

(** A device record without extra attributes. *)
Definition device (serial : string) (state : DeviceState) : DeviceInfo :=
  mkDeviceInfo serial state ∅.

Definition snapshot_of (devices : list DeviceInfo) : Snapshot :=
  list_to_map ((fun d => (Serial d, d)) <$> devices).

End watcher.

(** ** Further observations on payloads, traces and requests *)

(** The upper-case form of a byte: the letters [a] to [z] are moved to [A]
    to [Z], every other byte is kept. *)
Definition upper_ascii (c : ascii) : ascii :=
  let n := N_of_ascii c in
  if ((97 <=? n) && (n <=? 122))%N then ascii_of_N (n - 32) else c.

Fixpoint upper_string (s : string) : string :=
  match s with
  | EmptyString => EmptyString
  | String c s' => String (upper_ascii c) (upper_string s')
  end.

(** [k] zeros in front of [p]. *)
Fixpoint zero_pad (k : nat) (p : string) : string :=
  match k with
  | O => p
  | S k' => String "0" (zero_pad k' p)
  end.





(** The requests an operation sent, in order. *)
Fixpoint requests (t : list Event) : list string :=
  match t with
  | [] => []
  | EvSendMessage _ msg _ :: t' => msg :: requests t'
  | _ :: t' => requests t'
  end.

(** The byte [c] occurs in [s]. *)
Fixpoint occurs (c : ascii) (s : string) : Prop :=
  match s with
  | EmptyString => False
  | String c' s' => c = c' \/ occurs c s'
  end.

(** A network that accepts the connection and answers [OKAY] to two
    commands, and one that answers [OKAY] and a payload to one. *)
Definition accepts_two : script.World :=
  [script.Accept 0%nat; script.Sent; script.Status "OKAY" None;
   script.Sent; script.Status "OKAY" None].

(** ** Proof steps *)

(** Case analysis on the comparisons of integers in the goal. *)
Ltac zbool :=
  repeat (match goal with
          | |- context [?a <=? ?b] => destruct (Z.leb_spec a b)
          | |- context [?a <? ?b] => destruct (Z.ltb_spec a b)
          | |- context [?a >=? ?b] => destruct (Z.geb_spec a b)
          | |- context [?a >? ?b] => destruct (Z.gtb_spec a b)
          end; simpl; try lia).

(** Unfolding an operation down to the calls on the wire, and splitting on
    what the wire answers to the next call. *)
Ltac client_unfold :=
  unfold ServerVersion, KillServer, ListDeviceSerials, ListDevices,
    ListForwards, Connect, RestartAdbdTcpip, ForwardDevice,
    roundTripSingleResponse, SendMessageString, defer, bind, ret,
    server_Dial, conn_SendMessage, conn_ReadStatus, conn_ReadMessage,
    conn_Close, Printf, emit, start;
  simpl.

Ltac wire_answer :=
  match goal with
  | |- context [Dial ?wire ?w] =>
      destruct (Dial wire w) as [[?c|?e] ?w]
  | |- context [SendMessage ?wire ?c ?m ?w] =>
      destruct (SendMessage wire c m w) as [[?e|] ?w]
  | |- context [ReadStatus ?wire ?c ?m ?w] =>
      destruct (ReadStatus wire c m w) as [[?tag [?e|]] ?w]
  | |- context [ReadMessage ?wire ?c ?w] =>
      destruct (ReadMessage wire c w) as [[?msg ?e] ?w]
  end; simpl.

(** * Properties *)

(** ** The version parser *)

Section ParseVersion.

Import strconv.

Lemma digit_hex (c : ascii) :
  match digit c with
  | Some d => 0 <= d /\ hex_digit_value c = if d <? 16 then Some d else None
  | None => hex_digit_value c = None
  end.
Proof.
  destruct c as [[] [] [] [] [] [] [] []]; vm_compute; intuition congruence.
Qed.

Lemma hex_digit_bound c d : hex_digit_value c = Some d -> 0 <= d < 16.
Proof.
  pose proof (digit_hex c) as H. destruct (digit c) as [d'|].
  - destruct H as [H0 H]. rewrite H. destruct (d' <? 16) eqn:E; [|discriminate].
    intros [= <-]. apply Z.ltb_lt in E. lia.
  - rewrite H. discriminate.
Qed.

Lemma hex_digits_value_ge s : forall acc v,
  0 <= acc -> hex_digits_value s acc = Some v -> acc <= v.
Proof.
  induction s as [|c s IH]; intros acc v Hacc; simpl.
  - intros [= <-]. lia.
  - destruct (hex_digit_value c) as [d|] eqn:Hd; [|discriminate].
    apply hex_digit_bound in Hd. intros Hv. apply IH in Hv; lia.
Qed.

(** The loop of [ParseUint], in base 16 for a 32-bit result, computes
    the value of the digits or reports why it cannot. *)
Lemma ParseUint_loop_hex s0 s : forall n,
  0 <= n <= maxVal32 ->
  match hex_digits_value s n with
  | Some v =>
      ParseUint_loop false 16 cutoff16 maxVal32 s0 s false n =
      if v <=? maxVal32 then (v, None)
      else (maxVal32, Some (rangeError fnParseUint s0))
  | None =>
      ParseUint_loop false 16 cutoff16 maxVal32 s0 s false n = (0, Some (syntaxError fnParseUint s0))
      \/ ParseUint_loop false 16 cutoff16 maxVal32 s0 s false n
         = (maxVal32, Some (rangeError fnParseUint s0))
  end.
Proof.
  induction s as [|c s IH]; intros n Hn; simpl.
  - destruct (Z.leb_spec n maxVal32); [reflexivity | lia].
  - rewrite andb_false_r. pose proof (digit_hex c) as Hc.
    destruct (digit c) as [d|]; [|rewrite Hc; now left].
    destruct Hc as [Hd0 Hc]. rewrite Hc.
    destruct (Z.ltb_spec d 16) as [Hd|Hd].
    + destruct (Z.geb_spec d 16); [lia|].
      unfold maxVal32, cutoff16, maxUint64 in *.
      change (2 ^ 64 - 1) with 18446744073709551615 in *.
      change (18446744073709551615 / 16 + 1) with 1152921504606846976 in *.
      change (2 ^ 32 - 1) with 4294967295 in *.
      change (2 ^ 64) with 18446744073709551616 in *.
      destruct (Z.geb_spec n 1152921504606846976); [lia|].
      rewrite (Z.mod_small (n * 16)) by lia.
      rewrite (Z.mod_small (n * 16 + d)) by lia.
      destruct (Z.ltb_spec (n * 16 + d) (n * 16)); [lia|]. simpl.
      replace (16 * n + d) with (n * 16 + d) by lia.
      destruct (Z.gtb_spec (n * 16 + d) 4294967295) as [Hbig|Hsmall].
      * destruct (hex_digits_value s (n * 16 + d)) as [v|] eqn:Hv; [|now right].
        apply hex_digits_value_ge in Hv; [|lia].
        destruct (Z.leb_spec v 4294967295); [lia | reflexivity].
      * apply IH. lia.
    + destruct (Z.geb_spec d 16); [now left | lia].
Qed.

Lemma ParseUint_hex32 s :
  match hex_value s with
  | Some v =>
      ParseUint s 16 32 =
      if v <=? maxVal32 then (v, None)
      else (maxVal32, Some (rangeError fnParseUint s))
  | None =>
      exists r e, ParseUint s 16 32 = (r, Some e)
                  /\ (is_ErrRange e = true -> r = maxVal32)
  end.
Proof.
  destruct s as [|c s].
  - simpl. exists 0, (syntaxError fnParseUint ""). split; [reflexivity | discriminate].
  - assert (Hloop : ParseUint (String c s) 16 32
                    = ParseUint_loop false 16 cutoff16 maxVal32
                      (String c s) (String c s) false 0)
      by reflexivity.
    rewrite Hloop. unfold hex_value.
    pose proof (ParseUint_loop_hex (String c s) (String c s) 0) as H.
    destruct (hex_digits_value (String c s) 0) as [v|].
    + apply H. unfold maxVal32. lia.
    + destruct H as [H|H]; [unfold maxVal32; lia | |]; rewrite H; eauto.
      eexists _, _. split; [reflexivity | discriminate].
Qed.

Lemma to_int64_small z : - 2 ^ 63 <= z < 2 ^ 63 -> to_int64 z = z.
Proof.
  intros H. unfold to_int64. rewrite Z.mod_small; lia.
Qed.

(** What [ParseInt] does once the sign is picked off: [un] and [err]
    are the result of [ParseUint] on the digits [s]. *)
Lemma ParseInt_after_sign (neg : bool) (s s0 : string) :
  let r :=
    let '(un, err) := ParseUint s 16 32 in
    let syntax_failure :=
      match err with
      | Some e => if is_ErrRange e then None
                  else Some (mkNumError fnParseInt s0 (Reason e))
      | None => None
      end in
    match syntax_failure with
    | Some e => (0, Some e)
    | None =>
        let bitSize := if 32 =? 0 then IntSize else 32 in
        let cutoff := Z.shiftl 1 (bitSize - 1) mod 2 ^ 64 in
        if negb neg && (un >=? cutoff)
        then (to_int64 (cutoff - 1), Some (rangeError fnParseInt s0))
        else if neg && (un >? cutoff)
        then (to_int64 (- to_int64 cutoff), Some (rangeError fnParseInt s0))
        else
          let n := to_int64 un in
          ((if neg then to_int64 (- n) else n), None)
    end in
  match hex_value s with
  | Some v =>
      let v := if neg then - v else v in
      if in_int32 v then r = (v, None) else exists x e, r = (x, Some e)
  | None => exists x e, r = (x, Some e)
  end.
Proof.
  cbv zeta. pose proof (ParseUint_hex32 s) as H.
  change (if 32 =? 0 then IntSize else 32) with 32.
  change (Z.shiftl 1 (32 - 1) mod 2 ^ 64) with 2147483648.
  destruct (hex_value s) as [v|] eqn:Hv.
  - assert (0 <= v) as Hv0.
    { destruct s; [discriminate|]. apply hex_digits_value_ge in Hv; lia. }
    rewrite H. unfold maxVal32, in_int32.
    change (2 ^ 32 - 1) with 4294967295. change (2 ^ 31) with 2147483648.
    destruct neg; simpl; zbool; eauto;
      rewrite ?(to_int64_small v) by lia; rewrite ?to_int64_small by lia;
      reflexivity.
  - destruct H as (r & e & -> & Hr).
    destruct (is_ErrRange e); [|eauto].
    rewrite Hr by reflexivity. destruct neg; simpl; eauto.
Qed.

Lemma ParseInt_hex32 (p : string) :
  match signed_hex_value p with
  | Some v =>
      if in_int32 v then ParseInt p 16 32 = (v, None)
      else exists x e, ParseInt p 16 32 = (x, Some e)
  | None => exists x e, ParseInt p 16 32 = (x, Some e)
  end.
Proof.
  destruct p as [|c rest]; [simpl; eauto|].
  unfold signed_hex_value, ParseInt.
  destruct (Ascii.eqb c "+").
  - pose proof (ParseInt_after_sign false rest (String c rest)) as H.
    cbv zeta in H. destruct (hex_value rest); exact H.
  - destruct (Ascii.eqb c "-").
    + pose proof (ParseInt_after_sign true rest (String c rest)) as H.
      cbv zeta in H. destruct (hex_value rest); exact H.
    + pose proof (ParseInt_after_sign false (String c rest) (String c rest)) as H.
      cbv zeta in H. destruct (hex_value (String c rest)); exact H.
Qed.

(** [parseServerVersion] accepts the hexadecimal numerals, with an
    optional sign, whose value is a 32-bit signed integer, and answers
    0 and a ParseError to everything else. *)
Lemma parseServerVersion_spec (p : string) :
  match signed_hex_value p with
  | Some v =>
      if in_int32 v then parseServerVersion p = (v, None)
      else exists e, parseServerVersion p = (0, Some e) /\ Code e = ParseError
  | None => exists e, parseServerVersion p = (0, Some e) /\ Code e = ParseError
  end.
Proof.
  pose proof (ParseInt_hex32 p) as H. unfold parseServerVersion.
  destruct (signed_hex_value p) as [v|].
  - destruct (in_int32 v).
    + now rewrite H.
    + destruct H as (x & e & ->). eauto.
  - destruct H as (x & e & ->). eauto.
Qed.

End ParseVersion.

(** The examples of section 8 of the specification. *)

Example parseServerVersion_0029 : parseServerVersion "0029" = (41, None).
Proof. reflexivity. Qed.

Example parseServerVersion_zz :
  exists e, parseServerVersion "zz" = (0, Some e) /\ Code e = ParseError.
Proof. eexists. split; reflexivity. Qed.

Example parseDeviceList_short :
  parseDeviceList ("emulator-5554" +:+ String "009" "device" +:+ String "010" "")
                  parseDeviceShort
  = inl [mkDeviceInfo "emulator-5554" StateUnknown ∅].
Proof. reflexivity. Qed.

(** ** The client *)

Section ClientProperties.

Context {W : Type} (wire : Wire W).

(** C1 (as amended). After KillServer has sent [host:kill] on the
    connection it dialled, it reads nothing from that connection, neither
    a status tag nor a payload, before it closes it and returns; it
    returns success exactly when the dial and the send succeeded. *)
Theorem KillServer_reads_nothing (w : W) :
  let '(r, st) := KillServer wire (start w) in
  status_reads (trace st) = 0%nat
  /\ message_reads (trace st) = 0%nat
  /\ (r = None <->
      exists c, trace st = [EvDial (inl c);
                            EvSendMessage c "host:kill" None;
                            EvClose c]).
Proof.
  client_unfold. repeat wire_answer;
    (split; [reflexivity | split; [reflexivity |]]);
    (split; [intros H; try discriminate H; eauto
            | intros [c' H]; try discriminate H; try reflexivity]).
Qed.

(** [hex_value] accepts no sign, so a hexadecimal numeral is read the
    same with and without the optional sign. *)
Lemma hex_value_signed (s : string) (v : Z) :
  hex_value s = Some v -> signed_hex_value s = Some v.
Proof.
  destruct s as [|c s]; [discriminate|]. unfold signed_hex_value.
  destruct (Ascii.eqb_spec c "+") as [->|_]; [discriminate|].
  destruct (Ascii.eqb_spec c "-") as [->|_]; [discriminate|].
  trivial.
Qed.

(** ServerVersion after a round trip that returned [payload]. *)
Lemma ServerVersion_after_round_trip (w : W) (payload : string) (st1 : State W) :
  roundTripSingleResponse wire "host:version" (start w)
  = ((payload, None), st1) ->
  ServerVersion wire (start w) =
  match parseServerVersion payload with
  | (_, Some err) => ((0, Some (wrapClientError err "GetServerVersion")), st1)
  | (version, None) => ((version, None), st1)
  end.
Proof.
  intros H. unfold ServerVersion, bind. rewrite H.
  destruct (parseServerVersion payload) as [version [err|]]; reflexivity.
Qed.

(** C2 (as amended). ServerVersion parses the payload in base 16 as a
    32-bit signed integer: for every payload that is a hexadecimal
    numeral, with an optional sign, whose value lies between -2^31 and
    2^31 - 1 it returns that value, and for every other payload it
    returns 0 together with a ParseError-kind error. *)
Theorem ServerVersion_parses_int32_hex (w : W) (payload : string) (st1 : State W) :
  roundTripSingleResponse wire "host:version" (start w)
  = ((payload, None), st1) ->
  match signed_hex_value payload with
  | Some v =>
      if in_int32 v
      then ServerVersion wire (start w) = ((v, None), st1)
      else exists e, ServerVersion wire (start w) = ((0, Some e), st1)
                     /\ Code e = ParseError
  | None =>
      exists e, ServerVersion wire (start w) = ((0, Some e), st1)
                /\ Code e = ParseError
  end.
Proof.
  intros H. rewrite (ServerVersion_after_round_trip w payload st1 H).
  pose proof (parseServerVersion_spec payload) as Hp.
  destruct (signed_hex_value payload) as [v|].
  - destruct (in_int32 v).
    + now rewrite Hp.
    + destruct Hp as (e & -> & He). eexists. split; [reflexivity | exact He].
  - destruct Hp as (e & -> & He). eexists. split; [reflexivity | exact He].
Qed.

(** C9. The version is parsed into a 32-bit signed integer: for every
    payload that is a hexadecimal numeral whose value exceeds 2^31 - 1,
    ServerVersion fails with a ParseError-kind error (and the value 0),
    and returns no truncated or wrapped value. *)
Theorem ServerVersion_rejects_beyond_int32
        (w : W) (payload : string) (v : Z) (st1 : State W) :
  roundTripSingleResponse wire "host:version" (start w)
  = ((payload, None), st1) ->
  hex_value payload = Some v ->
  v > 2 ^ 31 - 1 ->
  exists e, ServerVersion wire (start w) = ((0, Some e), st1)
            /\ Code e = ParseError
            /\ Operation e = Some "GetServerVersion".
Proof.
  intros H Hv Hbig. rewrite (ServerVersion_after_round_trip w payload st1 H).
  pose proof (parseServerVersion_spec payload) as Hp.
  rewrite (hex_value_signed payload v Hv) in Hp.
  assert (in_int32 v = false) as Hr.
  { unfold in_int32. apply andb_false_iff. right. apply Z.leb_gt. lia. }
  rewrite Hr in Hp. destruct Hp as (e & -> & He).
  eexists. split; [reflexivity|]. split; [exact He | reflexivity].
Qed.



(** The loop of ListDeviceSerials fills the slots in order with the
    serials of the devices. *)
Lemma assign_serials_fills (devices : list DeviceInfo) :
  forall (filled slots : list string),
    length slots = length devices ->
    assign_serials devices (length filled) (filled ++ slots)%list
    = (filled ++ (Serial <$> devices))%list.
Proof.
  induction devices as [|dev rest IH]; intros filled slots Hlen.
  - destruct slots; [reflexivity | discriminate].
  - destruct slots as [|slot slots]; [discriminate|]. simpl.
    replace (length filled) with (length filled + 0)%nat at 2 by lia.
    rewrite insert_app_r. simpl.
    specialize (IH (filled ++ [Serial dev])%list slots).
    rewrite length_app in IH. simpl in IH.
    replace (length filled + 1)%nat with (S (length filled)) in IH by lia.
    rewrite <- !app_assoc in IH. simpl in IH. apply IH.
    simpl in Hlen. lia.
Qed.

Lemma assign_serials_map (devices : list DeviceInfo) :
  assign_serials devices 0 (replicate (length devices) "")
  = Serial <$> devices.
Proof.
  apply (assign_serials_fills devices [] (replicate (length devices) "")).
  apply length_replicate.
Qed.

(** A list with a malformed line does not parse, and the error is the
    one of a line of the list. *)
Lemma parse_lines_malformed (f : string -> DeviceInfo + Err) (lines : list string) :
  (exists line e, In line lines /\ f line = inr e) ->
  exists line e, In line lines /\ f line = inr e
                 /\ parse_lines f lines = inr e.
Proof.
  induction lines as [|l rest IH]; intros (line & e & Hin & Hf).
  - destruct Hin.
  - simpl. destruct (f l) as [d|e'] eqn:Hl.
    + destruct Hin as [->|Hin]; [congruence|].
      destruct IH as (line' & e'' & Hin' & Hf' & Hp); [eauto|].
      rewrite Hp. exists line', e''. auto.
    + exists l, e'. auto.
Qed.

Lemma parseDeviceShort_error (line : string) (e : Err) :
  parseDeviceShort line = inr e -> e = malformed line.
Proof.
  unfold parseDeviceShort.
  destruct (fields line) as [|? [|? [|? ?]]]; congruence.
Qed.

(** C6. After a round trip that returned [payload]: when the payload
    parses in the short format into the records [devices],
    ListDeviceSerials returns exactly as many strings, the i-th being
    the serial of the i-th record; when some line of the payload is
    malformed, the call returns no serials at all and a ParseError-kind
    error, annotated with the operation. *)
Theorem ListDeviceSerials_all_or_nothing
        (w : W) (payload : string) (st1 : State W) :
  roundTripSingleResponse wire "host:devices" (start w)
  = ((payload, None), st1) ->
  (forall devices,
      parseDeviceList payload parseDeviceShort = inl devices ->
      exists serials,
        ListDeviceSerials wire (start w) = ((Some serials, None), st1)
        /\ length serials = length devices
        /\ forall (i : nat) dev, devices !! i = Some dev ->
                                 serials !! i = Some (Serial dev))
  /\
  (forall line e,
      In line (payload_lines payload) ->
      parseDeviceShort line = inr e ->
      exists err,
        ListDeviceSerials wire (start w) = ((None, Some err), st1)
        /\ Code err = ParseError
        /\ Operation err = Some "ListDeviceSerials").
Proof.
  intros H. split.
  - intros devices Hd. exists (Serial <$> devices).
    split; [|split].
    + unfold ListDeviceSerials, bind. rewrite H, Hd.
      rewrite assign_serials_map. reflexivity.
    + apply length_fmap.
    + intros i dev Hi. rewrite list_lookup_fmap, Hi. reflexivity.
  - intros line e Hin He.
    destruct (parse_lines_malformed parseDeviceShort (payload_lines payload))
      as (line' & e' & Hin' & He' & Hp); [eauto|].
    exists (wrapClientError e' "ListDeviceSerials").
    split; [|split].
    + unfold ListDeviceSerials, bind. rewrite H.
      unfold parseDeviceList. rewrite Hp. reflexivity.
    + apply parseDeviceShort_error in He'. subst e'. reflexivity.
    + reflexivity.
Qed.

(** C8. ListForwards returns no data: after a round trip of
    [host:list-forward] that succeeded it returns a nil device list and
    a nil error, the payload being printed and not parsed; after one
    that failed it returns a nil list and the error annotated with the
    operation's name. *)
Theorem ListForwards_returns_no_data
        (w : W) (payload : string) (err : option Err) (st1 : State W) :
  roundTripSingleResponse wire "host:list-forward" (start w)
  = ((payload, err), st1) ->
  match err with
  | None =>
      ListForwards wire (start w)
      = ((None, None),
         mkState (world st1)
                 (trace st1 ++ [EvPrintf ("forward resp: %s" +:+ String "010" "")
                                         (ArgBytes payload)]))
  | Some e =>
      ListForwards wire (start w)
      = ((None, Some (wrapClientError e "ListForwards")), st1)
  end.
Proof.
  intros H. unfold ListForwards, bind. rewrite H.
  destruct err; reflexivity.
Qed.

(** C10. Connect looks at the error of the round trip only and discards
    the payload: for every host and port, whenever the round trip of
    [host:connect:<host>:<port>] succeeds, Connect returns nil, whatever
    the payload says; when the round trip fails, Connect returns its
    error, annotated. *)
Theorem Connect_discards_payload
        (w : W) (host : string) (port : Z)
        (payload : string) (err : option Err) (st1 : State W) :
  roundTripSingleResponse wire ("host:connect:" +:+ host +:+ ":" +:+ itoa port)
                          (start w)
  = ((payload, err), st1) ->
  Connect wire host port (start w)
  = ((fun e => wrapClientError e "Connect") <$> err, st1).
Proof.
  intros H. unfold Connect, bind. rewrite H. destruct err; reflexivity.
Qed.

(** An error annotated by [wrapClientError] with the operation [op]: it
    names [op], and it has the kind of the error it wraps. *)
Lemma wrapClientError_annotates (e0 : Err) (op : string) :
  Operation (wrapClientError e0 op) = Some op
  /\ Code (wrapClientError e0 op) = Code e0
  /\ ErrCause (wrapClientError e0 op) = CausedBy e0.
Proof. repeat split. Qed.

(** The six operations that go through [wrapClientError] annotate every
    error they return with the name they give to the operation:
    ServerVersion (under the name GetServerVersion), ListDeviceSerials,
    ListDevices, ListForwards, Connect and KillServer. *)
Theorem wrapped_operations_are_annotated
        (w : W) (parseDeviceLong : string -> DeviceInfo + Err)
        (host : string) (port : Z) :
  (forall e, (ServerVersion wire (start w)).1.2 = Some e ->
             Operation e = Some "GetServerVersion")
  /\ (forall e, (ListDeviceSerials wire (start w)).1.2 = Some e ->
                Operation e = Some "ListDeviceSerials")
  /\ (forall e, (ListDevices wire parseDeviceLong (start w)).1.2 = Some e ->
                Operation e = Some "ListDevices")
  /\ (forall e, (ListForwards wire (start w)).1.2 = Some e ->
                Operation e = Some "ListForwards")
  /\ (forall e, (Connect wire host port (start w)).1 = Some e ->
                Operation e = Some "Connect")
  /\ (forall e, (KillServer wire (start w)).1 = Some e ->
                Operation e = Some "KillServer").
Proof.
  repeat match goal with |- _ /\ _ => split end;
    client_unfold; repeat wire_answer;
    repeat match goal with
           | |- context [parseServerVersion ?p] =>
               destruct (parseServerVersion p) as [? [?|]]; simpl
           | |- context [parseDeviceList ?p ?f] =>
               destruct (parseDeviceList p f); simpl
           | |- context [match ?e with Some _ => _ | None => _ end] =>
               is_var e; destruct e; simpl
           end;
    intros e' He'; try discriminate He'; injection He' as <-; reflexivity.
Qed.

End ClientProperties.

(** ** The client on scripted networks *)

(** C1, the sentence as the specification has it, fails: on a network that
    accepts the connection and the command and would then answer [FAIL],
    KillServer has sent [host:kill], has read no status tag, and returns
    success. *)
Lemma KillServer_reads_no_status :
  ~ KillServer_reads_one_status script.wire
      [script.Accept 0%nat; script.Sent;
       script.Status "FAIL" (Some (script.failed "cannot kill"))].
Proof.
  unfold KillServer_reads_one_status. simpl. intros H.
  destruct (H 0%nat) as [Hreads _]; [simpl; auto | discriminate Hreads].
Qed.

(** C2, the sentence as the specification has it, fails: [80000000] is a
    hexadecimal numeral, of value 2^31, and ServerVersion returns 0 and
    an error for it. *)
Lemma ServerVersion_rejects_80000000 :
  ~ ServerVersion_parses_every_hex "80000000".
Proof.
  intros H.
  specialize (H script.World script.wire (script.answers "80000000") _ eq_refl).
  discriminate H.
Qed.

(** The payload [0029] is version 41. *)
Lemma ServerVersion_0029 :
  ServerVersion script.wire (start (script.answers "0029"))
  = ((41, None),
     (roundTripSingleResponse script.wire "host:version"
        (start (script.answers "0029"))).2).
Proof.
  exact (ServerVersion_parses_int32_hex script.wire
           (script.answers "0029") "0029" _ eq_refl).
Defined.

(** A payload of nine hexadecimal digits is refused. *)
Lemma ServerVersion_100000000 :
  exists e,
    ServerVersion script.wire (start (script.answers "100000000"))
    = ((0, Some e),
       (roundTripSingleResponse script.wire "host:version"
          (start (script.answers "100000000"))).2)
    /\ Code e = ParseError
    /\ Operation e = Some "GetServerVersion".
Proof.
  apply (ServerVersion_rejects_beyond_int32 script.wire
           (script.answers "100000000") "100000000" (2 ^ 32) _ eq_refl eq_refl).
  reflexivity.
Defined.

(** C4, where the code departs from it. The two operations that dial for
    themselves return the error of the wire as it is: when the server
    refuses the connection, ForwardDevice and RestartAdbdTcpip return the
    refusal itself, which names no operation, where KillServer on the same
    network returns it annotated with its name. *)
Theorem ForwardDevice_error_not_annotated :
  (ForwardDevice script.wire "emulator-5554" 8080 8081
     (start [script.Refuse script.refused])).1 = Some script.refused
  /\ (RestartAdbdTcpip script.wire "emulator-5554" 5555
        (start [script.Refuse script.refused])).1 = Some script.refused
  /\ Operation script.refused = None
  /\ (KillServer script.wire (start [script.Refuse script.refused])).1
     = Some (wrapClientError script.refused "KillServer").
Proof.
  repeat split.
Qed.

(** Two devices in the short format give their two serials, in order; a
    payload whose second line has a single field gives no serial and a
    ParseError, although its first line is well formed. *)
Lemma ListDeviceSerials_two_devices :
  let tab := String "009" "" in
  let nl := String "010" "" in
  let good := "emulator-5554" +:+ tab +:+ "device" +:+ nl
              +:+ "R58M12345" +:+ tab +:+ "offline" +:+ nl in
  let bad := "emulator-5554" +:+ tab +:+ "device" +:+ nl +:+ "R58M12345" +:+ nl in
  (exists serials,
      (ListDeviceSerials script.wire (start (script.answers good))).1
      = (Some serials, None)
      /\ serials !! 0%nat = Some "emulator-5554"
      /\ serials !! 1%nat = Some "R58M12345"
      /\ length serials = 2%nat)
  /\
  (exists err,
      (ListDeviceSerials script.wire (start (script.answers bad))).1
      = (None, Some err)
      /\ Code err = ParseError).
Proof.
  cbv zeta. split.
  - destruct (ListDeviceSerials_all_or_nothing script.wire
                (script.answers
                   ("emulator-5554" +:+ String "009" "" +:+ "device"
                    +:+ String "010" "" +:+ "R58M12345" +:+ String "009" ""
                    +:+ "offline" +:+ String "010" ""))
                _ _ eq_refl) as [Hok _].
    destruct (Hok _ eq_refl) as (serials & Hrun & Hlen & Hnth).
    exists serials. rewrite Hrun. split; [reflexivity|].
    split; [exact (Hnth 0%nat _ eq_refl)|].
    split; [exact (Hnth 1%nat _ eq_refl) | exact Hlen].
  - destruct (ListDeviceSerials_all_or_nothing script.wire
                (script.answers
                   ("emulator-5554" +:+ String "009" "" +:+ "device"
                    +:+ String "010" "" +:+ "R58M12345" +:+ String "010" ""))
                _ _ eq_refl) as [_ Hbad].
    destruct (Hbad "R58M12345" (malformed "R58M12345"))
      as (err & Hrun & Hcode & _).
    + simpl. auto.
    + reflexivity.
    + exists err. rewrite Hrun. split; [reflexivity | exact Hcode].
Defined.

(** A successful round trip of [host:list-forward] gives no data. *)
Lemma ListForwards_on_answer :
  (ListForwards script.wire
     (start (script.answers "emulator-5554 tcp:8080 tcp:8081"))).1
  = (None, None).
Proof.
  rewrite (ListForwards_returns_no_data script.wire
             (script.answers "emulator-5554 tcp:8080 tcp:8081")
             "emulator-5554 tcp:8080 tcp:8081" None _ eq_refl).
  reflexivity.
Defined.

(** Connect returns nil for a payload that reports a failure. *)
Lemma Connect_on_failure_text :
  (Connect script.wire "10.0.0.2" 5555
     (start (script.answers "failed to connect to 10.0.0.2:5555"))).1 = None.
Proof.
  rewrite (Connect_discards_payload script.wire
             (script.answers "failed to connect to 10.0.0.2:5555")
             "10.0.0.2" 5555 "failed to connect to 10.0.0.2:5555" None _ eq_refl).
  reflexivity.
Defined.

(** ** The device watcher *)

Section Watcher.

Import watcher.

Lemma only_in_lookup (m other : gmap string DeviceInfo) (serial : string) (d : DeviceInfo) :
  only_in m other !! serial = Some d
  <-> m !! serial = Some d /\ other !! serial <> Some d.
Proof. unfold only_in. rewrite map_lookup_filter_Some. reflexivity. Qed.

Lemma only_in_same (m : gmap string DeviceInfo) : only_in m m = ∅.
Proof.
  apply map_empty. intros serial.
  destruct (only_in m m !! serial) as [d|] eqn:H; [|reflexivity].
  apply only_in_lookup in H. destruct H as [H Hne]. now elim Hne.
Qed.

Lemma no_change_iff (before now : gmap string DeviceInfo) :
  no_change (diff before now) = true <-> before = now.
Proof.
  unfold no_change, diff. simpl.
  rewrite andb_true_iff, !bool_decide_eq_true. split.
  - intros [Hadd Hrem]. apply map_eq. intros serial.
    destruct (now !! serial) as [d|] eqn:Hn.
    + destruct (decide (before !! serial = Some d)) as [Hb|Hb]; [exact Hb|].
      assert (only_in now before !! serial = Some d) as H
          by (apply only_in_lookup; auto).
      rewrite Hadd, lookup_empty in H. discriminate.
    + destruct (before !! serial) as [d|] eqn:Hb; [|reflexivity].
      assert (only_in before now !! serial = Some d) as H
          by (apply only_in_lookup; split; [auto | congruence]).
      rewrite Hrem, lookup_empty in H. discriminate.
  - intros ->. split; apply only_in_same.
Qed.

(** C7. For two successive snapshots, keyed by serial, the watcher emits
    one ChangeEvent when they differ and nothing when they are equal. In
    the event, the records of the new snapshot that the old one does not
    hold are the added ones and the records of the old snapshot that the
    new one does not hold are the removed ones; so a device of the new
    snapshot only is added, a device of the old snapshot only is
    removed, and a device of both whose record changed is removed and
    added. *)
Theorem watcher_emits_the_difference (before now : gmap string DeviceInfo) :
  (before <> now ->
   exists ev,
     emitted (poll_cycle (Some before) (inl now)) = Some ev
     /\ (forall serial d,
            added ev !! serial = Some d
            <-> now !! serial = Some d /\ before !! serial <> Some d)
     /\ (forall serial d,
            removed ev !! serial = Some d
            <-> before !! serial = Some d /\ now !! serial <> Some d)
     /\ (forall serial d,
            now !! serial = Some d -> before !! serial = None ->
            added ev !! serial = Some d /\ removed ev !! serial = None)
     /\ (forall serial d,
            before !! serial = Some d -> now !! serial = None ->
            removed ev !! serial = Some d /\ added ev !! serial = None))
  /\ (before = now ->
      emitted (poll_cycle (Some before) (inl now)) = None).
Proof.
  unfold emitted, poll_cycle. simpl. split.
  - intros Hne. exists (diff before now).
    destruct (no_change (diff before now)) eqn:Hc.
    { apply no_change_iff in Hc. contradiction. }
    split; [reflexivity|]. simpl.
    split; [intros; apply only_in_lookup|].
    split; [intros; apply only_in_lookup|].
    split; intros serial d H1 H2.
    + split; [apply only_in_lookup; split; [auto | congruence]|].
      destruct (only_in before now !! serial) as [d'|] eqn:H; [|reflexivity].
      apply only_in_lookup in H. destruct H; congruence.
    + split; [apply only_in_lookup; split; [auto | congruence]|].
      destruct (only_in now before !! serial) as [d'|] eqn:H; [|reflexivity].
      apply only_in_lookup in H. destruct H; congruence.
  - intros Heq. apply no_change_iff in Heq. rewrite Heq. reflexivity.
Qed.

End Watcher.

(** The snapshots {A, B} and then {B, C}: C is added and A is removed. *)
Lemma watcher_AB_then_BC :
  let A := watcher.device "A" StateDevice in
  let B := watcher.device "B" StateDevice in
  let C := watcher.device "C" StateDevice in
  watcher.emitted
    (watcher.poll_cycle (Some (watcher.snapshot_of [A; B]))
                        (inl (watcher.snapshot_of [B; C])))
  = Some (watcher.mkChangeEvent (watcher.snapshot_of [C])
                                (watcher.snapshot_of [A])).
Proof.
  vm_compute. reflexivity.
Qed.

(** The watcher on the snapshots {A, B} and then {B, C}, by the general
    statement: one event, in which C is added and A is removed, and B is
    in neither set. *)
Lemma watcher_AB_then_BC_event :
  let A := watcher.device "A" StateDevice in
  let B := watcher.device "B" StateDevice in
  let C := watcher.device "C" StateDevice in
  exists ev,
    watcher.emitted
      (watcher.poll_cycle (Some (watcher.snapshot_of [A; B]))
                          (inl (watcher.snapshot_of [B; C]))) = Some ev
    /\ watcher.added ev !! "C" = Some C
    /\ watcher.removed ev !! "A" = Some A
    /\ watcher.added ev !! "B" = None
    /\ watcher.removed ev !! "B" = None.
Proof.
  cbv zeta.
  destruct (watcher_emits_the_difference
              (watcher.snapshot_of [watcher.device "A" StateDevice;
                                    watcher.device "B" StateDevice])
              (watcher.snapshot_of [watcher.device "B" StateDevice;
                                    watcher.device "C" StateDevice]))
    as [Hdiffer _].
  destruct Hdiffer as (ev & Hev & Hadd & Hrem & Hnew & Hold).
  { intros Heq. apply (f_equal (fun m => m !! "A")) in Heq.
    vm_compute in Heq. discriminate Heq. }
  exists ev. split; [exact Hev|].
  split; [exact (proj1 (Hnew "C" _ eq_refl eq_refl))|].
  split; [exact (proj1 (Hold "A" _ eq_refl eq_refl))|].
  split.
  - destruct (watcher.added ev !! "B") as [d|] eqn:HB; [|reflexivity].
    apply Hadd in HB. destruct HB as [Hn Hb].
    vm_compute in Hn. injection Hn as <-. now elim Hb.
  - destruct (watcher.removed ev !! "B") as [d|] eqn:HB; [|reflexivity].
    apply Hrem in HB. destruct HB as [Hb Hn].
    vm_compute in Hb. injection Hb as <-. now elim Hn.
Defined.

(** * Further properties of the code *)

(** ** The version parser: results, errors, case and padding *)

Section ParseVersionMore.

Import strconv.

(** The version and the success of [parseServerVersion], read off the
    numeral. *)
Lemma parseServerVersion_value (p : string) :
  (parseServerVersion p).1
  = match signed_hex_value p with
    | Some v => if in_int32 v then v else 0
    | None => 0
    end
  /\ ((parseServerVersion p).2 = None
      <-> exists v, signed_hex_value p = Some v /\ in_int32 v = true).
Proof.
  pose proof (parseServerVersion_spec p) as H.
  destruct (signed_hex_value p) as [v|].
  - destruct (in_int32 v) eqn:Hr.
    + rewrite H. split; [reflexivity|]. split; eauto.
    + destruct H as (e & -> & _). split; [reflexivity|].
      split; [discriminate|]. intros (v' & [= <-] & Hv'). congruence.
  - destruct H as (e & -> & _). split; [reflexivity|].
    split; [discriminate|]. intros (v' & Hv' & _). discriminate.
Qed.

(** A version that [parseServerVersion] returns without an error is a
    32-bit signed integer, and with an error the version is 0: no value
    is returned beside an error. *)
Theorem parseServerVersion_result_bounds (p : string) (v : Z) (err : option Err) :
  parseServerVersion p = (v, err) ->
  match err with
  | None => - 2 ^ 31 <= v <= 2 ^ 31 - 1
  | Some _ => v = 0
  end.
Proof.
  intros H. pose proof (parseServerVersion_spec p) as Hs. rewrite H in Hs.
  destruct (signed_hex_value p) as [n|].
  - destruct (in_int32 n) eqn:Hr.
    + injection Hs as -> ->. unfold in_int32 in Hr.
      apply andb_true_iff in Hr. destruct Hr as [H1 H2].
      apply Z.leb_le in H1, H2. lia.
    + destruct Hs as (e & [= -> ->] & _). reflexivity.
  - destruct Hs as (e & [= -> ->] & _). reflexivity.
Qed.

Lemma parseServerVersion_bounds_7fffffff :
  - 2 ^ 31 <= 2147483647 <= 2 ^ 31 - 1.
Proof.
  exact (parseServerVersion_result_bounds "7fffffff" 2147483647 None eq_refl).
Defined.

(** The errors of the loop of [ParseUint] are syntax and range errors
    about the whole input. *)
Lemma ParseUint_loop_error base0 base cutoff maxVal s0 s :
  forall underscores n r e,
    ParseUint_loop base0 base cutoff maxVal s0 s underscores n = (r, Some e) ->
    e = syntaxError fnParseUint s0 \/ e = rangeError fnParseUint s0.
Proof.
  induction s as [|c s IH]; intros underscores n r e; simpl.
  - destruct (underscores && negb (underscoreOK s0)); intros [= <- <-]; auto.
  - destruct ((byte_code c =? 95) && base0); [apply IH|].
    destruct (digit c) as [d|]; [|intros [= <- <-]; auto].
    destruct (d >=? base); [intros [= <- <-]; auto|].
    destruct (n >=? cutoff); [intros [= <- <-]; auto|].
    cbv zeta.
    destruct (_ || _); [intros [= <- <-]; auto | apply IH].
Qed.

Lemma ParseUint_error16 s r e :
  ParseUint s 16 32 = (r, Some e) ->
  Reason e = ErrSyntax \/ Reason e = ErrRange.
Proof.
  destruct s as [|c s]; [intros [= <- <-]; auto|].
  change (ParseUint (String c s) 16 32)
    with (ParseUint_loop false 16 cutoff16 maxVal32
            (String c s) (String c s) false 0).
  intros H. apply ParseUint_loop_error in H. destruct H as [->| ->]; auto.
Qed.

(** An error of [ParseInt], in base 16 for 32 bits, names [ParseInt] and
    the whole input, and is a syntax or a range error. *)
Lemma ParseInt_error16 p r e :
  ParseInt p 16 32 = (r, Some e) ->
  Func e = fnParseInt /\ Num e = p
  /\ (Reason e = ErrSyntax \/ Reason e = ErrRange).
Proof.
  destruct p as [|c rest]; [intros [= <- <-]; auto|].
  unfold ParseInt.
  set (sign := if Ascii.eqb c "+" then (false, rest)
               else if Ascii.eqb c "-" then (true, rest)
               else (false, String c rest)).
  destruct sign as [neg s].
  destruct (ParseUint s 16 32) as [un [eu|]] eqn:Hu.
  - apply ParseUint_error16 in Hu.
    unfold is_ErrRange. destruct (Reason eu) eqn:Hr;
      try (destruct Hu; discriminate); cbv zeta.
    + intros [= <- <-]. auto.
    + destruct (negb neg && _); [intros [= <- <-]; auto|].
      destruct (neg && _); [intros [= <- <-]; auto | discriminate].
  - cbv zeta.
    destruct (negb neg && _); [intros [= <- <-]; auto|].
    destruct (neg && _); [intros [= <- <-]; auto | discriminate].
Qed.

(** The error of [parseServerVersion] says what failed: it is a
    ParseError whose message ends with the payload as received, it names
    no operation, and its cause is the error of [strconv.ParseInt] on
    that payload, a syntax or a range error. *)
Theorem parseServerVersion_error_names_payload (p : string) (v : Z) (e : Err) :
  parseServerVersion p = (v, Some e) ->
  Code e = ParseError
  /\ Message e = "error parsing server version: " +:+ p
  /\ Operation e = None
  /\ exists cause,
      ErrCause e = CausedByNum cause
      /\ Func cause = "ParseInt" /\ Num cause = p
      /\ (Reason cause = ErrSyntax \/ Reason cause = ErrRange).
Proof.
  unfold parseServerVersion.
  destruct (ParseInt p 16 32) as [n [ne|]] eqn:Hp; [|discriminate].
  intros [= <- <-]. apply ParseInt_error16 in Hp.
  repeat split. exists ne. split; [reflexivity | exact Hp].
Qed.

Lemma parseServerVersion_error_of_zz :
  Code (mkErr ParseError "error parsing server version: zz" None
          (CausedByNum (mkNumError "ParseInt" "zz" ErrSyntax))) = ParseError
  /\ Message (mkErr ParseError "error parsing server version: zz" None
                (CausedByNum (mkNumError "ParseInt" "zz" ErrSyntax)))
     = "error parsing server version: " +:+ "zz"
  /\ Operation (mkErr ParseError "error parsing server version: zz" None
                  (CausedByNum (mkNumError "ParseInt" "zz" ErrSyntax))) = None
  /\ exists cause,
      ErrCause (mkErr ParseError "error parsing server version: zz" None
                  (CausedByNum (mkNumError "ParseInt" "zz" ErrSyntax)))
      = CausedByNum cause
      /\ Func cause = "ParseInt" /\ Num cause = "zz"
      /\ (Reason cause = ErrSyntax \/ Reason cause = ErrRange).
Proof.
  exact (parseServerVersion_error_names_payload "zz" 0 _ eq_refl).
Defined.

End ParseVersionMore.

Section ParseVersionForms.

Import strconv.

(** A hexadecimal numeral above 2^31 - 1 is reported as a range error of
    [ParseInt], not as a syntax error. *)
Theorem parseServerVersion_range_error (p : string) (n : Z) :
  hex_value p = Some n ->
  n > 2 ^ 31 - 1 ->
  parseServerVersion p
  = (0, Some (WrapErrorf (rangeError fnParseInt p) ParseError
                ("error parsing server version: " +:+ p))).
Proof.
  intros Hn Hbig. pose proof (ParseUint_hex32 p) as Hu. rewrite Hn in Hu.
  destruct p as [|c rest]; [discriminate|].
  assert (Ascii.eqb c "+" = false) as Hplus.
  { destruct (Ascii.eqb_spec c "+") as [->|]; [discriminate | reflexivity]. }
  assert (Ascii.eqb c "-" = false) as Hminus.
  { destruct (Ascii.eqb_spec c "-") as [->|]; [discriminate | reflexivity]. }
  unfold parseServerVersion, ParseInt. rewrite Hplus, Hminus. rewrite Hu.
  unfold maxVal32. change (2 ^ 32 - 1) with 4294967295.
  change (2 ^ 31 - 1) with 2147483647 in Hbig.
  destruct (Z.leb_spec n 4294967295); cbv beta iota zeta;
    change (if 32 =? 0 then IntSize else 32) with 32;
    change (Z.shiftl 1 (32 - 1) mod 2 ^ 64) with 2147483648; simpl.
  - destruct (Z.geb_spec n 2147483648); [reflexivity | lia].
  - reflexivity.
Qed.

Lemma parseServerVersion_range_error_ffffffff :
  parseServerVersion "ffffffff"
  = (0, Some (WrapErrorf (rangeError fnParseInt "ffffffff") ParseError
                ("error parsing server version: " +:+ "ffffffff"))).
Proof.
  apply (parseServerVersion_range_error "ffffffff" 4294967295 eq_refl).
  reflexivity.
Defined.

Lemma upper_ascii_digit (c : ascii) :
  hex_digit_value (upper_ascii c) = hex_digit_value c.
Proof. destruct c as [[] [] [] [] [] [] [] []]; reflexivity. Qed.

Lemma upper_ascii_sign (c : ascii) :
  Ascii.eqb (upper_ascii c) "+" = Ascii.eqb c "+"
  /\ Ascii.eqb (upper_ascii c) "-" = Ascii.eqb c "-".
Proof. destruct c as [[] [] [] [] [] [] [] []]; split; reflexivity. Qed.

Lemma upper_string_digits (s : string) :
  forall acc, hex_digits_value (upper_string s) acc = hex_digits_value s acc.
Proof.
  induction s as [|c s IH]; intros acc; simpl; [reflexivity|].
  rewrite upper_ascii_digit. destruct (hex_digit_value c); [apply IH | reflexivity].
Qed.

Lemma upper_string_hex_value (s : string) :
  hex_value (upper_string s) = hex_value s.
Proof.
  destruct s as [|c s]; [reflexivity|].
  apply (upper_string_digits (String c s) 0).
Qed.

Lemma upper_string_signed (s : string) :
  signed_hex_value (upper_string s) = signed_hex_value s.
Proof.
  destruct s as [|c s]; [reflexivity|].
  unfold signed_hex_value. simpl upper_string.
  destruct (upper_ascii_sign c) as [-> ->].
  rewrite (upper_string_hex_value s).
  change (String (upper_ascii c) (upper_string s))
    with (upper_string (String c s)).
  rewrite (upper_string_hex_value (String c s)). reflexivity.
Qed.

(** The version does not depend on the case of the letters of the
    payload: a payload and its upper-case form give the same version, and
    the one is refused exactly when the other is. *)
Theorem parseServerVersion_ignores_case (p : string) :
  (parseServerVersion (upper_string p)).1 = (parseServerVersion p).1
  /\ ((parseServerVersion (upper_string p)).2 = None
      <-> (parseServerVersion p).2 = None).
Proof.
  destruct (parseServerVersion_value p) as [Hv Hok].
  destruct (parseServerVersion_value (upper_string p)) as [Hv' Hok'].
  rewrite upper_string_signed in Hv', Hok'.
  split; [congruence|]. rewrite Hok, Hok'. reflexivity.
Qed.

Lemma zero_pad_digits (k : nat) (p : string) :
  hex_digits_value (zero_pad k p) 0 = hex_digits_value p 0.
Proof. induction k as [|k IH]; [reflexivity | exact IH]. Qed.

(** Zeros in front of a numeral change nothing, however many: a
    hexadecimal numeral within the 32-bit range parses to its value with
    any number of leading zeros, also when that makes more than eight
    digits. *)
Theorem parseServerVersion_leading_zeros (k : nat) (p : string) (n : Z) :
  hex_value p = Some n ->
  n <= 2 ^ 31 - 1 ->
  parseServerVersion (zero_pad k p) = (n, None).
Proof.
  intros Hn Hsmall.
  assert (hex_value (zero_pad k p) = Some n) as Hpad.
  { destruct k as [|k]; [exact Hn|].
    change (hex_value (zero_pad (S k) p))
      with (hex_digits_value (zero_pad (S k) p) 0).
    rewrite zero_pad_digits. destruct p; [discriminate | exact Hn]. }
  assert (0 <= n) as Hpos.
  { destruct p; [discriminate|]. apply hex_digits_value_ge in Hn; lia. }
  pose proof (parseServerVersion_spec (zero_pad k p)) as Hs.
  rewrite (hex_value_signed _ _ Hpad) in Hs.
  assert (in_int32 n = true) as Hr.
  { unfold in_int32. apply andb_true_iff. split; apply Z.leb_le; lia. }
  rewrite Hr in Hs. exact Hs.
Qed.

Lemma parseServerVersion_padded_29 :
  parseServerVersion (zero_pad 10 "29") = (41, None).
Proof.
  apply (parseServerVersion_leading_zeros 10 "29" 41 eq_refl). lia.
Defined.

End ParseVersionForms.

(** ** What the operations print, and what they put on the wire *)

Section ClientMore.

Context {W : Type} (wire : Wire W).


(** The five operations that go through the round-trip helper make that
    one round trip and nothing else: whatever the payload and whether it
    parses or not, ServerVersion, ListDeviceSerials, ListDevices and
    Connect leave the network and the trace as the single round trip of
    their command leaves them, and ListForwards differs only by what it
    prints. *)
Theorem operations_make_one_round_trip
        (w : W) (parseDeviceLong : string -> DeviceInfo + Err)
        (host : string) (port : Z) :
  (ServerVersion wire (start w)).2
  = (roundTripSingleResponse wire "host:version" (start w)).2
  /\ (ListDeviceSerials wire (start w)).2
     = (roundTripSingleResponse wire "host:devices" (start w)).2
  /\ (ListDevices wire parseDeviceLong (start w)).2
     = (roundTripSingleResponse wire "host:devices-l" (start w)).2
  /\ (Connect wire host port (start w)).2
     = (roundTripSingleResponse wire
          ("host:connect:" +:+ host +:+ ":" +:+ itoa port) (start w)).2
  /\ world (ListForwards wire (start w)).2
     = world (roundTripSingleResponse wire "host:list-forward" (start w)).2
  /\ wire_calls (trace (ListForwards wire (start w)).2)
     = wire_calls
         (trace (roundTripSingleResponse wire "host:list-forward" (start w)).2).
Proof.
  unfold ServerVersion, ListDeviceSerials, ListDevices, Connect, ListForwards,
    bind.
  repeat match goal with |- _ /\ _ => split end;
    match goal with
    | |- context [roundTripSingleResponse wire ?cmd (start w)] =>
        destruct (roundTripSingleResponse wire cmd (start w))
          as [[resp [e|]] st1]
    end; simpl; try reflexivity.
  - destruct (parseServerVersion resp) as [v [e|]]; reflexivity.
  - destruct (parseDeviceList resp parseDeviceShort); reflexivity.
  - destruct (parseDeviceList resp parseDeviceLong); reflexivity.
  - unfold wire_calls. rewrite List.filter_app. simpl. apply app_nil_r.
Qed.

End ClientMore.

(** ** The requests determine the arguments *)

Section Requests.

#[local] Arguments itoa : simpl never.

Lemma append_inv_head (p a b : string) : p +:+ a = p +:+ b -> a = b.
Proof.
  induction p as [|c p IH]; simpl; [trivial|]. intros [= H]. auto.
Qed.

Lemma occurs_append (c : ascii) (a b : string) :
  occurs c (a +:+ String c b).
Proof. induction a as [|c' a IH]; simpl; auto. Qed.

(** Two texts cut at the first occurrence of a separator. *)
Lemma split_at_first (sep : ascii) (a a' b b' : string) :
  ~ occurs sep a -> ~ occurs sep a' ->
  a +:+ String sep b = a' +:+ String sep b' ->
  a = a' /\ b = b'.
Proof.
  revert a'. induction a as [|c a IH]; intros [|c' a'] Ha Ha'; simpl in *.
  - intros [= ->]. auto.
  - intros [= <- _]. tauto.
  - intros [= -> _]. tauto.
  - intros [= <- H]. destruct (IH a') as [-> ->]; auto.
Qed.

(** Two texts cut at the last occurrence of a separator. *)
Lemma split_at_last (sep : ascii) (a a' b b' : string) :
  ~ occurs sep b -> ~ occurs sep b' ->
  a +:+ String sep b = a' +:+ String sep b' ->
  a = a' /\ b = b'.
Proof.
  intros Hb Hb'. revert a'.
  induction a as [|c a IH]; intros [|c' a']; simpl.
  - intros [= ->]. auto.
  - intros [= <- ->]. elim Hb. apply occurs_append.
  - intros [= -> <-]. elim Hb'. apply occurs_append.
  - intros [= <- H]. destruct (IH a' H) as [-> ->]. auto.
Qed.

Lemma uint_chars (d : Decimal.uint) (c : ascii) :
  occurs c (NilEmpty.string_of_uint d) ->
  (48 <= N_of_ascii c <= 57)%N.
Proof.
  induction d; simpl; try tauto;
    (intros [->|H]; [vm_compute; split; discriminate | auto]).
Qed.

(** A number in decimal is made of digits and, when negative, a minus
    sign: it holds no colon and no semicolon. *)
Lemma itoa_chars (n : Z) (c : ascii) :
  occurs c (itoa n) -> c = "-"%char \/ (48 <= N_of_ascii c <= 57)%N.
Proof.
  assert (forall d, occurs c (NilZero.string_of_uint d) ->
                    (48 <= N_of_ascii c <= 57)%N) as Hd.
  { intros d. destruct d;
      [simpl; intros [->|[]]; vm_compute; split; discriminate | ..];
      match goal with
      | |- occurs _ (NilZero.string_of_uint ?x) -> _ => exact (uint_chars x c)
      end. }
  unfold itoa, NilZero.string_of_int.
  destruct (Z.to_int n) as [d|d]; simpl.
  - intros H. right. exact (Hd d H).
  - intros [->|H]; [now left | right; exact (Hd d H)].
Qed.

Lemma itoa_no_colon (n : Z) : ~ occurs ":" (itoa n).
Proof.
  intros H. apply itoa_chars in H. destruct H as [H|[H1 H2]];
    [discriminate | vm_compute in H2; auto].
Qed.

Lemma itoa_no_semicolon (n : Z) : ~ occurs ";" (itoa n).
Proof.
  intros H. apply itoa_chars in H. destruct H as [H|[H1 H2]];
    [discriminate | vm_compute in H2; auto].
Qed.

(** Distinct numbers are printed differently. *)
Lemma itoa_inj (n m : Z) : itoa n = itoa m -> n = m.
Proof.
  assert (forall z, NilZero.int_of_string (itoa z) = Some (Z.to_int z)) as Hread.
  { intros z. unfold itoa. apply NilZero.isi; intros Hz;
      assert (z = 0) as Hz0
        by (rewrite <- (DecimalZ.of_to z), Hz; reflexivity);
      subst z; discriminate Hz. }
  intros H. apply DecimalZ.to_int_inj.
  pose proof (Hread n) as Hn. rewrite H, Hread in Hn. congruence.
Qed.

End Requests.

Section RequestsOnTheWire.

Context {W : Type} (wire : Wire W).

#[local] Arguments itoa : simpl never.

(** The requests of ForwardDevice lose nothing of its arguments: two
    calls that succeed and have sent the same requests had the same
    serial, the same local port and the same device port. *)
Theorem ForwardDevice_requests_determine_arguments
        (w w' : W) (serial serial' : string) (l d l' d' : Z) :
  (ForwardDevice wire serial l d (start w)).1 = None ->
  (ForwardDevice wire serial' l' d' (start w')).1 = None ->
  requests (trace (ForwardDevice wire serial l d (start w)).2)
  = requests (trace (ForwardDevice wire serial' l' d' (start w')).2) ->
  serial = serial' /\ l = l' /\ d = d'.
Proof.
  intros H1 H2 H3. revert H1 H2 H3. client_unfold.
  repeat wire_answer; intros H1 H2 H3; try discriminate.
  injection H3 as Hserial Hports.
  destruct (split_at_first ";" _ _ _ _
              (itoa_no_semicolon l) (itoa_no_semicolon l') Hports)
    as [Hl Hd].
  injection Hd as Hd.
  apply itoa_inj in Hl, Hd. auto.
Qed.

(** The same for RestartAdbdTcpip: the serial and the port. *)
Theorem RestartAdbdTcpip_requests_determine_arguments
        (w w' : W) (serial serial' : string) (port port' : Z) :
  (RestartAdbdTcpip wire serial port (start w)).1 = None ->
  (RestartAdbdTcpip wire serial' port' (start w')).1 = None ->
  requests (trace (RestartAdbdTcpip wire serial port (start w)).2)
  = requests (trace (RestartAdbdTcpip wire serial' port' (start w')).2) ->
  serial = serial' /\ port = port'.
Proof.
  intros H1 H2 H3. revert H1 H2 H3. client_unfold.
  repeat wire_answer; intros H1 H2 H3; try discriminate.
  injection H3 as Hserial Hport.
  apply itoa_inj in Hport. auto.
Qed.

(** The request of Connect determines the host and the port, also for a
    host that holds colons: the port is what follows the last colon. *)
Theorem Connect_request_determines_arguments
        (w w' : W) (host host' : string) (port port' : Z) :
  (Connect wire host port (start w)).1 = None ->
  (Connect wire host' port' (start w')).1 = None ->
  requests (trace (Connect wire host port (start w)).2)
  = requests (trace (Connect wire host' port' (start w')).2) ->
  host = host' /\ port = port'.
Proof.
  intros H1 H2 H3. revert H1 H2 H3. client_unfold.
  repeat wire_answer; intros H1 H2 H3; try discriminate.
  destruct e, e0; try discriminate. simpl in H3.
  injection H3 as Hreq. apply append_inv_head in Hreq.
  destruct (split_at_last ":" _ _ _ _
              (itoa_no_colon port) (itoa_no_colon port') Hreq)
    as [Hhost Hport].
  apply itoa_inj in Hport. auto.
Qed.

End RequestsOnTheWire.

Lemma ForwardDevice_requests_example :
  "emulator-5554" = "emulator-5554" /\ 8080 = 8080 /\ 8081 = 8081.
Proof.
  exact (ForwardDevice_requests_determine_arguments script.wire
           accepts_two accepts_two "emulator-5554" "emulator-5554"
           8080 8081 8080 8081 eq_refl eq_refl eq_refl).
Defined.

Lemma RestartAdbdTcpip_requests_example :
  "emulator-5554" = "emulator-5554" /\ 5555 = 5555.
Proof.
  exact (RestartAdbdTcpip_requests_determine_arguments script.wire
           accepts_two accepts_two "emulator-5554" "emulator-5554"
           5555 5555 eq_refl eq_refl eq_refl).
Defined.

Lemma Connect_request_example :
  "10.0.0.2" = "10.0.0.2" /\ 5555 = 5555.
Proof.
  exact (Connect_request_determines_arguments script.wire
           (script.answers "connected to 10.0.0.2:5555")
           (script.answers "already connected to 10.0.0.2:5555")
           "10.0.0.2" "10.0.0.2" 5555 5555 eq_refl eq_refl eq_refl).
Defined.

Section ServerVersionResult.

Context {W : Type} (wire : Wire W).

(** On every network, ServerVersion returns either a version that is a
    32-bit signed integer and no error, or the version 0 and an error:
    both of its error paths return 0, and no version is returned beside
    an error. *)
Theorem ServerVersion_result_bounds (w : W) :
  let '((version, err), _) := ServerVersion wire (start w) in
  match err with
  | None => - 2 ^ 31 <= version <= 2 ^ 31 - 1
  | Some _ => version = 0
  end.
Proof.
  unfold ServerVersion, bind.
  destruct (roundTripSingleResponse wire "host:version" (start w))
    as [[resp [e|]] st1]; simpl; [reflexivity|].
  destruct (parseServerVersion resp) as [v err] eqn:Hp.
  pose proof (parseServerVersion_result_bounds resp v err Hp) as Hb.
  destruct err; simpl; [reflexivity | exact Hb].
Qed.

End ServerVersionResult.
